(** * Scheduler call construction (package [calls])

    A shallow embedding of [scheduler/calls/calls.go]: the constructors of
    [scheduler.Call] values, the call modifiers [Filters] and [Framework],
    the accept builder and the reconcile-task modifier, and the properties
    the specification states about them. *)

From stdpp Require Import gmap strings list fin_maps.

Open Scope string_scope.
Open Scope list_scope.

(** ** Go values *)

(** A Go slice is either [nil] or backed by an array: [None] is the nil
    slice, [Some l] a non-nil slice holding [l] (possibly of length 0). *)
Definition slice (A : Type) : Type := option (list A).

Definition elems {A} (s : slice A) : list A := default [] s.

Definition len {A} (s : slice A) : nat := length (elems s).

(** [append(s, x)]: the result is never nil. *)
Definition append {A} (s : slice A) (x : A) : slice A := Some (elems s ++ [x]).

(** [range] over a Go map visits every entry once, in an order the language
    leaves unspecified.  An iteration is described by the order it picks:
    any function that permutes the entries. *)
Record RangeOrder (A : Type) : Type := {
  visit : list A → list A;
  visit_perm : ∀ l, visit l ≡ₚ l
}.
Arguments visit {A} _ _.
Arguments visit_perm {A} _ _.

Definition stored_order {A} : RangeOrder A :=
  {| visit := λ l, l; visit_perm := λ l, reflexivity l |}.

Definition reversed_order {A} : RangeOrder A :=
  {| visit := reverse; visit_perm := reverse_Permutation |}.

(** A call either returns or panics; a panic is the message of an explicit
    [panic(...)] or the runtime's nil dereference. *)
Inductive panic : Type :=
  | PanicMsg (msg : string)
  | NilDereference.

Inductive outcome (A : Type) : Type :=
  | Returns (a : A)
  | Panics (p : panic).
Arguments Returns {A} a.
Arguments Panics {A} p.

(** ** Identifiers of package [mesos] *)

Record FrameworkID : Type := { FrameworkID_Value : string }.
Record OfferID : Type := { OfferID_Value : string }.
Record TaskID : Type := { TaskID_Value : string }.
Record AgentID : Type := { AgentID_Value : string }.
Record ExecutorID : Type := { ExecutorID_Value : string }.

#[global] Instance OfferID_eq_dec : EqDecision OfferID.
Proof. solve_decision. Defined.

#[global] Instance OfferID_countable : Countable OfferID.
Proof.
  refine (inj_countable' OfferID_Value Build_OfferID _).
  by intros [].
Defined.

#[global] Instance TaskID_eq_dec : EqDecision TaskID.
Proof. solve_decision. Defined.

#[global] Instance AgentID_eq_dec : EqDecision AgentID.
Proof. solve_decision. Defined.

(** ** Enumerations *)

(** The call kinds of [scheduler.Call_Type] the package builds. *)
Inductive Call_Type : Type :=
  | Call_SUBSCRIBE | Call_ACCEPT | Call_DECLINE | Call_REVIVE | Call_KILL
  | Call_SHUTDOWN | Call_ACKNOWLEDGE | Call_RECONCILE | Call_MESSAGE
  | Call_REQUEST.

#[global] Instance Call_Type_eq_dec : EqDecision Call_Type.
Proof. solve_decision. Defined.

Inductive Offer_Operation_Type : Type :=
  | LAUNCH | RESERVE | UNRESERVE | CREATE | DESTROY.

#[global] Instance Offer_Operation_Type_eq_dec : EqDecision Offer_Operation_Type.
Proof. solve_decision. Defined.

(** ** What the package imports

    The message types of packages [mesos] and [scheduler] whose contents
    this package only passes through, and the two imported functions it
    calls on them. *)
Class Imports : Type := {
  FrameworkInfo : Type;
  (** the [ID] field read by [GetID]: the identity stored in the info,
      nil when it has none. *)
  FrameworkInfo_ID : FrameworkInfo → option FrameworkID;
  TaskInfo : Type;
  Resource : Type;
  Request_ : Type;
  FilterOpt : Type;
  Filters_ : Type;
  (** [mesos.OptionalFilters] *)
  OptionalFilters : list FilterOpt → option Filters_;
  (** [Call_Type.String] *)
  Call_Type_String : Call_Type → string
}.

Section calls.
Context `{Imports}.

(** ** Messages of package [scheduler] and [mesos] *)

Record Offer_Operation_Launch : Type := { launch_TaskInfos : slice TaskInfo }.
Record Offer_Operation_Reserve : Type := { reserve_Resources : slice Resource }.
Record Offer_Operation_Unreserve : Type := { unreserve_Resources : slice Resource }.
Record Offer_Operation_Create : Type := { create_Volumes : slice Resource }.
Record Offer_Operation_Destroy : Type := { destroy_Volumes : slice Resource }.

Record Offer_Operation : Type := {
  op_Type : option Offer_Operation_Type;
  op_Launch : option Offer_Operation_Launch;
  op_Reserve : option Offer_Operation_Reserve;
  op_Unreserve : option Offer_Operation_Unreserve;
  op_Create : option Offer_Operation_Create;
  op_Destroy : option Offer_Operation_Destroy
}.

Record Call_Subscribe : Type := {
  subscribe_FrameworkInfo : option FrameworkInfo;
  subscribe_Force : bool
}.

Record Call_Accept : Type := {
  accept_OfferIDs : slice OfferID;
  accept_Operations : slice Offer_Operation;
  accept_Filters : option Filters_
}.

Record Call_Decline : Type := {
  decline_OfferIDs : slice OfferID;
  decline_Filters : option Filters_
}.

Record Call_Kill : Type := {
  kill_TaskID : TaskID;
  kill_AgentID : option AgentID
}.

Record Call_Shutdown : Type := {
  shutdown_ExecutorID : ExecutorID;
  shutdown_AgentID : AgentID
}.

Record Call_Acknowledge : Type := {
  acknowledge_AgentID : AgentID;
  acknowledge_TaskID : TaskID;
  acknowledge_UUID : slice Byte.byte
}.

Record Call_Reconcile_Task : Type := {
  task_TaskID : TaskID;
  task_AgentID : option AgentID
}.

Record Call_Reconcile : Type := { reconcile_Tasks : slice Call_Reconcile_Task }.

Record Call_Message : Type := {
  message_AgentID : AgentID;
  message_ExecutorID : ExecutorID;
  message_Data : slice Byte.byte
}.

Record Call_Request : Type := { request_Requests : slice Request_ }.

(** [scheduler.Call]: the discriminant, the framework identity and one
    optional pointer per payload variant.  [Call_REVIVE] has no payload
    field. *)
Record Call : Type := {
  call_Type : option Call_Type;
  call_FrameworkID : option FrameworkID;
  call_Subscribe : option Call_Subscribe;
  call_Accept : option Call_Accept;
  call_Decline : option Call_Decline;
  call_Kill : option Call_Kill;
  call_Shutdown : option Call_Shutdown;
  call_Acknowledge : option Call_Acknowledge;
  call_Reconcile : option Call_Reconcile;
  call_Message : option Call_Message;
  call_Request : option Call_Request
}.

(** The zero value [Call_Reconcile_Task{}], which [make] fills a slice with. *)
Definition zero_Task : Call_Reconcile_Task :=
  {| task_TaskID := {| TaskID_Value := "" |}; task_AgentID := None |}.

(** Field assignments. *)
Definition set_call_FrameworkID (f : option FrameworkID) (c : Call) : Call :=
  {| call_Type := call_Type c; call_FrameworkID := f;
     call_Subscribe := call_Subscribe c; call_Accept := call_Accept c;
     call_Decline := call_Decline c; call_Kill := call_Kill c;
     call_Shutdown := call_Shutdown c; call_Acknowledge := call_Acknowledge c;
     call_Reconcile := call_Reconcile c; call_Message := call_Message c;
     call_Request := call_Request c |}.

Definition set_call_Accept (a : option Call_Accept) (c : Call) : Call :=
  {| call_Type := call_Type c; call_FrameworkID := call_FrameworkID c;
     call_Subscribe := call_Subscribe c; call_Accept := a;
     call_Decline := call_Decline c; call_Kill := call_Kill c;
     call_Shutdown := call_Shutdown c; call_Acknowledge := call_Acknowledge c;
     call_Reconcile := call_Reconcile c; call_Message := call_Message c;
     call_Request := call_Request c |}.

Definition set_call_Decline (d : option Call_Decline) (c : Call) : Call :=
  {| call_Type := call_Type c; call_FrameworkID := call_FrameworkID c;
     call_Subscribe := call_Subscribe c; call_Accept := call_Accept c;
     call_Decline := d; call_Kill := call_Kill c;
     call_Shutdown := call_Shutdown c; call_Acknowledge := call_Acknowledge c;
     call_Reconcile := call_Reconcile c; call_Message := call_Message c;
     call_Request := call_Request c |}.

Definition set_accept_Filters (f : option Filters_) (a : Call_Accept) : Call_Accept :=
  {| accept_OfferIDs := accept_OfferIDs a;
     accept_Operations := accept_Operations a; accept_Filters := f |}.

Definition set_decline_Filters (f : option Filters_) (d : Call_Decline) : Call_Decline :=
  {| decline_OfferIDs := decline_OfferIDs d; decline_Filters := f |}.

Definition set_task_TaskID (t : TaskID) (e : Call_Reconcile_Task) : Call_Reconcile_Task :=
  {| task_TaskID := t; task_AgentID := task_AgentID e |}.

Definition set_task_AgentID (a : option AgentID) (e : Call_Reconcile_Task) : Call_Reconcile_Task :=
  {| task_TaskID := task_TaskID e; task_AgentID := a |}.

Definition set_reconcile_Tasks (ts : slice Call_Reconcile_Task) (cr : Call_Reconcile) : Call_Reconcile :=
  {| reconcile_Tasks := ts |}.

(** The payload variants a call populates, in field order. *)
Definition present {A} (k : Call_Type) (o : option A) : list Call_Type :=
  match o with Some _ => [k] | None => [] end.

Definition populated (c : Call) : list Call_Type :=
  present Call_SUBSCRIBE (call_Subscribe c) ++
  present Call_ACCEPT (call_Accept c) ++
  present Call_DECLINE (call_Decline c) ++
  present Call_KILL (call_Kill c) ++
  present Call_SHUTDOWN (call_Shutdown c) ++
  present Call_ACKNOWLEDGE (call_Acknowledge c) ++
  present Call_RECONCILE (call_Reconcile c) ++
  present Call_MESSAGE (call_Message c) ++
  present Call_REQUEST (call_Request c).

(** The payload variant that belongs to a call kind: every kind but
    [Call_REVIVE] has one. *)
Definition payload_of (k : Call_Type) : list Call_Type :=
  match k with
  | Call_REVIVE => []
  | _ => [k]
  end.

(** ** Call modifiers *)

Definition CallOpt : Type := Call → outcome Call.

Definition Filters (fo : list FilterOpt) : CallOpt := λ c,
  match call_Type c with
  | None => Panics NilDereference
  | Some Call_ACCEPT =>
      match call_Accept c with
      | None => Panics NilDereference
      | Some a =>
          Returns (set_call_Accept (Some (set_accept_Filters (OptionalFilters fo) a)) c)
      end
  | Some Call_DECLINE =>
      match call_Decline c with
      | None => Panics NilDereference
      | Some d =>
          Returns (set_call_Decline (Some (set_decline_Filters (OptionalFilters fo) d)) c)
      end
  | Some t =>
      Panics (PanicMsg ("filters not supported for type " +:+ Call_Type_String t))
  end.

Definition Framework (id : string) : CallOpt := λ c,
  Returns (set_call_FrameworkID (Some {| FrameworkID_Value := id |}) c).

(** ** Constructors *)

Definition GetID (info : option FrameworkInfo) : option FrameworkID :=
  info ≫= FrameworkInfo_ID.

Definition Subscribe (force : bool) (info : option FrameworkInfo) : Call :=
  {| call_Type := Some Call_SUBSCRIBE; call_FrameworkID := GetID info;
     call_Subscribe :=
       Some {| subscribe_FrameworkInfo := info; subscribe_Force := force |};
     call_Accept := None; call_Decline := None; call_Kill := None;
     call_Shutdown := None; call_Acknowledge := None; call_Reconcile := None;
     call_Message := None; call_Request := None |}.

Record acceptBuilder : Type := {
  offerIDs : gset OfferID;
  operations : slice Offer_Operation
}.

Definition AcceptOpt : Type := acceptBuilder → acceptBuilder.

Definition OperationBuilder : Type := unit → Offer_Operation.

Definition OfferWithOperations (oid : OfferID) (opOpts : list OperationBuilder) : AcceptOpt :=
  λ ab,
    {| offerIDs := {[ oid ]} ∪ offerIDs ab;
       operations := foldl (λ s op, append s (op ())) (operations ab) opOpts |}.

Definition Accept (ro : RangeOrder OfferID) (ops : list AcceptOpt) : Call :=
  let ab := foldl (λ ab op, op ab) {| offerIDs := ∅; operations := None |} ops in
  (* make([]OfferID, 0, len(ab.offerIDs)), then one append per key *)
  let ids := foldl append (Some []) (visit ro (elements (offerIDs ab))) in
  {| call_Type := Some Call_ACCEPT; call_FrameworkID := None;
     call_Subscribe := None;
     call_Accept :=
       Some {| accept_OfferIDs := ids; accept_Operations := operations ab;
               accept_Filters := None |};
     call_Decline := None; call_Kill := None; call_Shutdown := None;
     call_Acknowledge := None; call_Reconcile := None; call_Message := None;
     call_Request := None |}.

(** Operation builders: each starts from the zero operation and sets the
    discriminant and one variant. *)
Definition OpLaunch (ti : slice TaskInfo) : OperationBuilder := λ _,
  {| op_Type := Some LAUNCH;
     op_Launch := Some {| launch_TaskInfos := ti |};
     op_Reserve := None; op_Unreserve := None; op_Create := None;
     op_Destroy := None |}.

Definition OpReserve (rs : slice Resource) : OperationBuilder := λ _,
  {| op_Type := Some RESERVE; op_Launch := None;
     op_Reserve := Some {| reserve_Resources := rs |};
     op_Unreserve := None; op_Create := None; op_Destroy := None |}.

Definition OpUnreserve (rs : slice Resource) : OperationBuilder := λ _,
  {| op_Type := Some UNRESERVE; op_Launch := None; op_Reserve := None;
     op_Unreserve := Some {| unreserve_Resources := rs |};
     op_Create := None; op_Destroy := None |}.

Definition OpCreate (rs : slice Resource) : OperationBuilder := λ _,
  {| op_Type := Some CREATE; op_Launch := None; op_Reserve := None;
     op_Unreserve := None;
     op_Create := Some {| create_Volumes := rs |};
     op_Destroy := None |}.

Definition OpDestroy (rs : slice Resource) : OperationBuilder := λ _,
  {| op_Type := Some DESTROY; op_Launch := None; op_Reserve := None;
     op_Unreserve := None; op_Create := None;
     op_Destroy := Some {| destroy_Volumes := rs |} |}.

Definition Revive : Call :=
  {| call_Type := Some Call_REVIVE; call_FrameworkID := None;
     call_Subscribe := None; call_Accept := None; call_Decline := None;
     call_Kill := None; call_Shutdown := None; call_Acknowledge := None;
     call_Reconcile := None; call_Message := None; call_Request := None |}.

Definition Decline (offerIDs : slice OfferID) : Call :=
  {| call_Type := Some Call_DECLINE; call_FrameworkID := None;
     call_Subscribe := None; call_Accept := None;
     call_Decline :=
       Some {| decline_OfferIDs := offerIDs; decline_Filters := None |};
     call_Kill := None; call_Shutdown := None; call_Acknowledge := None;
     call_Reconcile := None; call_Message := None; call_Request := None |}.

Definition optionalAgentID (agentID : string) : option AgentID :=
  if decide (agentID = "") then None
  else Some {| AgentID_Value := agentID |}.

Definition Kill (taskID agentID : string) : Call :=
  {| call_Type := Some Call_KILL; call_FrameworkID := None;
     call_Subscribe := None; call_Accept := None; call_Decline := None;
     call_Kill :=
       Some {| kill_TaskID := {| TaskID_Value := taskID |};
               kill_AgentID := optionalAgentID agentID |};
     call_Shutdown := None; call_Acknowledge := None; call_Reconcile := None;
     call_Message := None; call_Request := None |}.

Definition Shutdown (executorID agentID : string) : Call :=
  {| call_Type := Some Call_SHUTDOWN; call_FrameworkID := None;
     call_Subscribe := None; call_Accept := None; call_Decline := None;
     call_Kill := None;
     call_Shutdown :=
       Some {| shutdown_ExecutorID := {| ExecutorID_Value := executorID |};
               shutdown_AgentID := {| AgentID_Value := agentID |} |};
     call_Acknowledge := None; call_Reconcile := None; call_Message := None;
     call_Request := None |}.

Definition Acknowledge (agentID taskID : string) (uuid : slice Byte.byte) : Call :=
  {| call_Type := Some Call_ACKNOWLEDGE; call_FrameworkID := None;
     call_Subscribe := None; call_Accept := None; call_Decline := None;
     call_Kill := None; call_Shutdown := None;
     call_Acknowledge :=
       Some {| acknowledge_AgentID := {| AgentID_Value := agentID |};
               acknowledge_TaskID := {| TaskID_Value := taskID |};
               acknowledge_UUID := uuid |};
     call_Reconcile := None; call_Message := None; call_Request := None |}.

(** ** Reconcile *)

Definition ReconcileOpt : Type := Call_Reconcile → Call_Reconcile.

(** One step of the loop of [ReconcileTasks]: the two assignments to
    [result[i]] and [i++].  Go panics on an index out of range, where
    [alter] leaves the list as it is; the loop never gets there, as
    [result] has one slot per entry of the map (lemma [fill_task_loop]). *)
Definition fill_task (st : list Call_Reconcile_Task * nat) (kv : string * string)
    : list Call_Reconcile_Task * nat :=
  let '(result, i) := st in
  let result := alter (set_task_TaskID {| TaskID_Value := kv.1 |}) i result in
  let result := alter (set_task_AgentID (optionalAgentID kv.2)) i result in
  (result, S i).

Definition ReconcileTasks (ro : RangeOrder (string * string))
    (tasks : gmap string string) : ReconcileOpt := λ cr,
  if decide (size tasks = 0) then set_reconcile_Tasks None cr
  else
    (* make([]Call_Reconcile_Task, len(tasks)) *)
    let result := replicate (size tasks) zero_Task in
    let '(result, _) := foldl fill_task (result, 0) (visit ro (map_to_list tasks)) in
    set_reconcile_Tasks (Some result) cr.

(** Modelled from the spec: the method [With] of [scheduler.Call_Reconcile],
    declared in package [scheduler]; it applies the modifiers to the
    receiver in the order supplied and returns it. *)
Definition Call_Reconcile_With (cr : Call_Reconcile) (opts : list ReconcileOpt)
    : Call_Reconcile :=
  foldl (λ cr opt, opt cr) cr opts.

Definition Reconcile (opts : list ReconcileOpt) : Call :=
  {| call_Type := Some Call_RECONCILE; call_FrameworkID := None;
     call_Subscribe := None; call_Accept := None; call_Decline := None;
     call_Kill := None; call_Shutdown := None; call_Acknowledge := None;
     call_Reconcile :=
       Some (Call_Reconcile_With {| reconcile_Tasks := None |} opts);
     call_Message := None; call_Request := None |}.

Definition Message (agentID executorID : string) (data : slice Byte.byte) : Call :=
  {| call_Type := Some Call_MESSAGE; call_FrameworkID := None;
     call_Subscribe := None; call_Accept := None; call_Decline := None;
     call_Kill := None; call_Shutdown := None; call_Acknowledge := None;
     call_Reconcile := None;
     call_Message :=
       Some {| message_AgentID := {| AgentID_Value := agentID |};
               message_ExecutorID := {| ExecutorID_Value := executorID |};
               message_Data := data |};
     call_Request := None |}.

Definition Request (requests : slice Request_) : Call :=
  {| call_Type := Some Call_REQUEST; call_FrameworkID := None;
     call_Subscribe := None; call_Accept := None; call_Decline := None;
     call_Kill := None; call_Shutdown := None; call_Acknowledge := None;
     call_Reconcile := None; call_Message := None;
     call_Request := Some {| request_Requests := requests |} |}.

Definition errInvalidCall (reason : string) : string :=
  "invalid call: " +:+ reason.

(** The entry a mapping entry [(taskID, agentID)] stands for. *)
Definition task_of (kv : string * string) : Call_Reconcile_Task :=
  {| task_TaskID := {| TaskID_Value := kv.1 |};
     task_AgentID := optionalAgentID kv.2 |}.

(** The [(taskID, agentID-or-absent)] pair of an entry. *)
Definition task_pair (e : Call_Reconcile_Task) : string * option string :=
  (TaskID_Value (task_TaskID e), AgentID_Value <$> task_AgentID e).

(** The tasks a reconcile call carries. *)
Definition tasks_of (c : Call) : slice Call_Reconcile_Task :=
  match call_Reconcile c with
  | Some cr => reconcile_Tasks cr
  | None => None
  end.

(** The offer identifiers and the operations an accept call carries. *)
Definition offer_ids (c : Call) : list OfferID :=
  match call_Accept c with
  | Some a => elems (accept_OfferIDs a)
  | None => []
  end.

Definition offer_set (c : Call) : gset OfferID := list_to_set (offer_ids c).

Definition operations_of (c : Call) : list Offer_Operation :=
  match call_Accept c with
  | Some a => elems (accept_Operations a)
  | None => []
  end.

(** The modifier list that attaches each offer with its operation
    builders, and the operations those builders produce, in order. *)
Definition attach (l : list (OfferID * list OperationBuilder)) : list AcceptOpt :=
  (λ p, OfferWithOperations p.1 p.2) <$> l.

Definition built_operations (l : list (OfferID * list OperationBuilder))
    : list Offer_Operation :=
  l ≫= (λ p, (λ op : OperationBuilder, op ()) <$> p.2).

(** A call of one of the ten constructors, with its arguments. *)
Inductive invocation : Type :=
  | Invoke_Subscribe (force : bool) (info : option FrameworkInfo)
  | Invoke_Accept (ro : RangeOrder OfferID) (ops : list AcceptOpt)
  | Invoke_Revive
  | Invoke_Decline (offerIDs : slice OfferID)
  | Invoke_Kill (taskID agentID : string)
  | Invoke_Shutdown (executorID agentID : string)
  | Invoke_Acknowledge (agentID taskID : string) (uuid : slice Byte.byte)
  | Invoke_Reconcile (opts : list ReconcileOpt)
  | Invoke_Message (agentID executorID : string) (data : slice Byte.byte)
  | Invoke_Request (requests : slice Request_).

Definition invoke (i : invocation) : Call :=
  match i with
  | Invoke_Subscribe force info => Subscribe force info
  | Invoke_Accept ro ops => Accept ro ops
  | Invoke_Revive => Revive
  | Invoke_Decline offerIDs => Decline offerIDs
  | Invoke_Kill taskID agentID => Kill taskID agentID
  | Invoke_Shutdown executorID agentID => Shutdown executorID agentID
  | Invoke_Acknowledge agentID taskID uuid => Acknowledge agentID taskID uuid
  | Invoke_Reconcile opts => Reconcile opts
  | Invoke_Message agentID executorID data => Message agentID executorID data
  | Invoke_Request requests => Request requests
  end.

Definition kind (i : invocation) : Call_Type :=
  match i with
  | Invoke_Subscribe _ _ => Call_SUBSCRIBE
  | Invoke_Accept _ _ => Call_ACCEPT
  | Invoke_Revive => Call_REVIVE
  | Invoke_Decline _ => Call_DECLINE
  | Invoke_Kill _ _ => Call_KILL
  | Invoke_Shutdown _ _ => Call_SHUTDOWN
  | Invoke_Acknowledge _ _ _ => Call_ACKNOWLEDGE
  | Invoke_Reconcile _ => Call_RECONCILE
  | Invoke_Message _ _ _ => Call_MESSAGE
  | Invoke_Request _ => Call_REQUEST
  end.

(** ** Notions used to state further properties *)

(** Two modifiers applied one after the other to the same call; a panic
    of the first ends the run. *)
Definition and_then (o1 o2 : CallOpt) : CallOpt := λ c,
  match o1 c with
  | Returns c' => o2 c'
  | Panics p => Panics p
  end.

(** A call is well-formed when the payload variants it populates are
    those of its discriminant. *)
Definition well_formed (c : Call) : Prop :=
  match call_Type c with
  | Some k => populated c = payload_of k
  | None => False
  end.

(** The filters a call carries, in its Accept or Decline payload. *)
Definition filters_of (c : Call) : option Filters_ :=
  match call_Accept c, call_Decline c with
  | Some a, _ => accept_Filters a
  | None, Some d => decline_Filters d
  | None, None => None
  end.

(** The variants an operation populates, in field order. *)
Definition op_present {A} (k : Offer_Operation_Type) (o : option A)
    : list Offer_Operation_Type :=
  match o with Some _ => [k] | None => [] end.

Definition op_populated (op : Offer_Operation) : list Offer_Operation_Type :=
  op_present LAUNCH (op_Launch op) ++
  op_present RESERVE (op_Reserve op) ++
  op_present UNRESERVE (op_Unreserve op) ++
  op_present CREATE (op_Create op) ++
  op_present DESTROY (op_Destroy op).

(** A call of one of the five operation-builder constructors. *)
Inductive builder_call : Type :=
  | Build_Launch (ti : slice TaskInfo)
  | Build_Reserve (rs : slice Resource)
  | Build_Unreserve (rs : slice Resource)
  | Build_Create (rs : slice Resource)
  | Build_Destroy (rs : slice Resource).

Definition builder_of (b : builder_call) : OperationBuilder :=
  match b with
  | Build_Launch ti => OpLaunch ti
  | Build_Reserve rs => OpReserve rs
  | Build_Unreserve rs => OpUnreserve rs
  | Build_Create rs => OpCreate rs
  | Build_Destroy rs => OpDestroy rs
  end.

Definition builder_kind (b : builder_call) : Offer_Operation_Type :=
  match b with
  | Build_Launch _ => LAUNCH
  | Build_Reserve _ => RESERVE
  | Build_Unreserve _ => UNRESERVE
  | Build_Create _ => CREATE
  | Build_Destroy _ => DESTROY
  end.

(** The modifier list that attaches each offer with operations of the
    five builders. *)
Definition attach_built (l : list (OfferID * list builder_call))
    : list AcceptOpt :=
  attach ((λ p : OfferID * list builder_call, (p.1, builder_of <$> p.2)) <$> l).

End calls.

(** ** A concrete instance of the imports

    Messages are represented by their names, a filter by its refusal
    period in seconds; [OptionalFilters] of no option is nil. *)
Definition sample_Call_Type_String (t : Call_Type) : string :=
  match t with
  | Call_SUBSCRIBE => "SUBSCRIBE" | Call_ACCEPT => "ACCEPT"
  | Call_DECLINE => "DECLINE" | Call_REVIVE => "REVIVE"
  | Call_KILL => "KILL" | Call_SHUTDOWN => "SHUTDOWN"
  | Call_ACKNOWLEDGE => "ACKNOWLEDGE" | Call_RECONCILE => "RECONCILE"
  | Call_MESSAGE => "MESSAGE" | Call_REQUEST => "REQUEST"
  end.

Definition sample_imports : Imports :=
  {| FrameworkInfo := option FrameworkID;
     FrameworkInfo_ID := λ info, info;
     TaskInfo := string;
     Resource := string;
     Request_ := string;
     FilterOpt := nat;
     Filters_ := list nat;
     OptionalFilters := λ fo, match fo with [] => None | _ => Some fo end;
     Call_Type_String := sample_Call_Type_String |}.

Definition refuse_5s : list (@FilterOpt sample_imports) := [5].
Definition cpus : slice (@Resource sample_imports) := Some ["cpus"].
Definition disk : slice (@Resource sample_imports) := Some ["disk"].
Definition one_task : slice (@TaskInfo sample_imports) := Some ["task"].

Definition offer_A : OfferID := {| OfferID_Value := "A" |}.
Definition offer_B : OfferID := {| OfferID_Value := "B" |}.

(** The struct literal [Call{Type: ACCEPT}]: the discriminant of an accept
    call, every payload pointer nil. *)
Definition accept_without_payload : @Call sample_imports :=
  {| call_Type := Some Call_ACCEPT; call_FrameworkID := None;
     call_Subscribe := None; call_Accept := None; call_Decline := None;
     call_Kill := None; call_Shutdown := None; call_Acknowledge := None;
     call_Reconcile := None; call_Message := None; call_Request := None |}.

(** * Properties *)

Section properties.
Context `{Imports}.

(** ** Constructors: discriminant and payload *)

(** C1 (as amended): each of the ten constructors returns a call whose
    discriminant is its kind; the nine constructors whose kind has a
    payload variant populate exactly that variant and no other, and
    [Revive], whose kind has none, populates no payload variant at all. *)
Theorem constructor_discriminant_payload (i : invocation) :
  call_Type (invoke i) = Some (kind i) ∧
  populated (invoke i) = payload_of (kind i).
Proof. by destruct i. Qed.

(** ** Kill and Shutdown: the agent field *)

(** C3: [Kill] with the empty agentID leaves the agent field of the Kill
    payload absent; with a non-empty agentID the field is present and
    holds exactly that string. *)
Theorem Kill_agentID (taskID agentID : string) :
  call_Type (Kill taskID agentID) = Some Call_KILL ∧
  (agentID = "" →
     call_Kill (Kill taskID agentID) =
       Some {| kill_TaskID := {| TaskID_Value := taskID |};
               kill_AgentID := None |}) ∧
  (agentID ≠ "" →
     call_Kill (Kill taskID agentID) =
       Some {| kill_TaskID := {| TaskID_Value := taskID |};
               kill_AgentID := Some {| AgentID_Value := agentID |} |}).
Proof.
  unfold Kill, optionalAgentID; cbn.
  split; [reflexivity|].
  split; intros Hid; case_decide; congruence.
Qed.

(** C9: [Shutdown] stores both identifiers as given, the empty string
    included: the agent of the payload is a value holding [agentID], and
    no argument makes it differ from the one given, in contrast to the
    optional agent of [Kill]. *)
Theorem Shutdown_fields_present (executorID agentID : string) :
  call_Type (Shutdown executorID agentID) = Some Call_SHUTDOWN ∧
  call_Shutdown (Shutdown executorID agentID) =
    Some {| shutdown_ExecutorID := {| ExecutorID_Value := executorID |};
            shutdown_AgentID := {| AgentID_Value := agentID |} |} ∧
  (∃ p, call_Shutdown (Shutdown executorID "") = Some p ∧
        shutdown_AgentID p = {| AgentID_Value := "" |}) ∧
  (∃ p, call_Shutdown (Shutdown "" agentID) = Some p ∧
        shutdown_ExecutorID p = {| ExecutorID_Value := "" |}) ∧
  (∃ k, call_Kill (Kill executorID "") = Some k ∧ kill_AgentID k = None).
Proof.
  repeat split; eexists; split; reflexivity.
Qed.

(** ** Call modifiers *)

(** C4 (as amended): on a call whose discriminant is Accept (resp.
    Decline) and whose Accept (resp. Decline) payload is present,
    [Filters] returns: the call it returns has that payload with the
    filter field set to [OptionalFilters] of the options and the offer
    identifiers (and operations) it had, and every other field of the
    call as it was; on a call of any other discriminant it panics with
    the usage message. *)
Theorem Filters_dispatch (fo : list FilterOpt) (c : Call) :
  (∀ a, call_Type c = Some Call_ACCEPT → call_Accept c = Some a →
     ∃ c' a', Filters fo c = Returns c' ∧
       call_Accept c' = Some a' ∧
       accept_Filters a' = OptionalFilters fo ∧
       accept_OfferIDs a' = accept_OfferIDs a ∧
       accept_Operations a' = accept_Operations a ∧
       call_Type c' = Some Call_ACCEPT ∧
       call_FrameworkID c' = call_FrameworkID c ∧
       call_Subscribe c' = call_Subscribe c ∧
       call_Decline c' = call_Decline c ∧
       call_Kill c' = call_Kill c ∧
       call_Shutdown c' = call_Shutdown c ∧
       call_Acknowledge c' = call_Acknowledge c ∧
       call_Reconcile c' = call_Reconcile c ∧
       call_Message c' = call_Message c ∧
       call_Request c' = call_Request c) ∧
  (∀ d, call_Type c = Some Call_DECLINE → call_Decline c = Some d →
     ∃ c' d', Filters fo c = Returns c' ∧
       call_Decline c' = Some d' ∧
       decline_Filters d' = OptionalFilters fo ∧
       decline_OfferIDs d' = decline_OfferIDs d ∧
       call_Type c' = Some Call_DECLINE ∧
       call_FrameworkID c' = call_FrameworkID c ∧
       call_Subscribe c' = call_Subscribe c ∧
       call_Accept c' = call_Accept c ∧
       call_Kill c' = call_Kill c ∧
       call_Shutdown c' = call_Shutdown c ∧
       call_Acknowledge c' = call_Acknowledge c ∧
       call_Reconcile c' = call_Reconcile c ∧
       call_Message c' = call_Message c ∧
       call_Request c' = call_Request c) ∧
  (∀ t, call_Type c = Some t → t ≠ Call_ACCEPT → t ≠ Call_DECLINE →
     Filters fo c =
       Panics (PanicMsg ("filters not supported for type " +:+
                         Call_Type_String t))).
Proof.
  unfold Filters. split; [|split].
  - intros a Ht Ha. rewrite Ht, Ha. do 2 eexists.
    split; [reflexivity|]. cbn. by repeat split.
  - intros d Ht Hd. rewrite Ht, Hd. do 2 eexists.
    split; [reflexivity|]. cbn. by repeat split.
  - intros t -> Ha Hd. by destruct t.
Qed.

(** C8: [Framework] returns, for every call, the call with the framework
    identity set to [id], whatever it held before; the discriminant and
    every payload variant are those of the call it was applied to. *)
Theorem Framework_overwrites_only_id (id : string) (c : Call) :
  ∃ c', Framework id c = Returns c' ∧
    call_FrameworkID c' = Some {| FrameworkID_Value := id |} ∧
    call_Type c' = call_Type c ∧
    call_Subscribe c' = call_Subscribe c ∧
    call_Accept c' = call_Accept c ∧
    call_Decline c' = call_Decline c ∧
    call_Kill c' = call_Kill c ∧
    call_Shutdown c' = call_Shutdown c ∧
    call_Acknowledge c' = call_Acknowledge c ∧
    call_Reconcile c' = call_Reconcile c ∧
    call_Message c' = call_Message c ∧
    call_Request c' = call_Request c ∧
    populated c' = populated c.
Proof.
  eexists. split; [reflexivity|]. by repeat split.
Qed.

(** ** The reconcile-task modifier *)

(** The loop fills the slots from [i] on, one per visited entry: with as
    many free slots as entries, every index written is in range and every
    slot is written. *)
Lemma fill_task_loop kvs pre suf :
  foldl fill_task (pre ++ replicate (length kvs) zero_Task ++ suf, length pre) kvs =
    (pre ++ (task_of <$> kvs) ++ suf, length pre + length kvs).
Proof.
  revert pre. induction kvs as [|kv kvs IH]; intros pre; cbn [foldl].
  - cbn. by rewrite Nat.add_0_r.
  - cbn [length replicate fill_task].
    rewrite <-(Nat.add_0_r (length pre)) at 1 2.
    rewrite !alter_app_r. simpl.
    specialize (IH (pre ++ [task_of kv])).
    rewrite length_app, <-!(assoc_L (++)) in IH. simpl in IH.
    replace (length pre + 1) with (S (length pre)) in IH by lia.
    unfold set_task_AgentID, set_task_TaskID. simpl.
    unfold task_of in IH at 1 2. rewrite IH. f_equal. lia.
Qed.

Lemma ReconcileTasks_empty ro cr :
  ReconcileTasks ro ∅ cr = set_reconcile_Tasks None cr.
Proof. unfold ReconcileTasks. by rewrite map_size_empty. Qed.

Lemma ReconcileTasks_nonempty ro (m : gmap string string) cr :
  m ≠ ∅ →
  ReconcileTasks ro m cr =
    set_reconcile_Tasks (Some (task_of <$> visit ro (map_to_list m))) cr.
Proof.
  intros Hm. unfold ReconcileTasks.
  case_decide as Hsz; [by apply map_size_empty_iff in Hsz|].
  assert (size m = length (visit ro (map_to_list m))) as ->.
  { by rewrite (visit_perm ro), length_map_to_list. }
  pose proof (fill_task_loop (visit ro (map_to_list m)) [] []) as Hloop.
  cbn in Hloop. rewrite !app_nil_r in Hloop. by rewrite Hloop.
Qed.

(** C2 (as amended): for the empty mapping [ReconcileTasks] resets the
    task list to nil, whatever it held; the Reconcile call built with it
    is the very call built with no modifier, so its task list is the
    absent one and not a present list of length 0. *)
Theorem ReconcileTasks_empty_is_nil ro (cr : Call_Reconcile) :
  reconcile_Tasks (ReconcileTasks ro ∅ cr) = None ∧
  Reconcile [ReconcileTasks ro ∅] = Reconcile [] ∧
  tasks_of (Reconcile [ReconcileTasks ro ∅]) = None ∧
  tasks_of (Reconcile [ReconcileTasks ro ∅]) ≠ Some [].
Proof.
  unfold Reconcile, tasks_of; cbn. rewrite !ReconcileTasks_empty.
  by repeat split.
Qed.

(** The entries stored for a non-empty mapping. *)
Lemma ReconcileTasks_stores ro (m : gmap string string) (cr : Call_Reconcile) :
  m ≠ ∅ →
  ∃ ts, reconcile_Tasks (ReconcileTasks ro m cr) = Some ts ∧
    length ts = size m ∧
    (TaskID_Value ∘ task_TaskID) <$> ts ≡ₚ (map_to_list m).*1 ∧
    NoDup ((TaskID_Value ∘ task_TaskID) <$> ts) ∧
    ts ≡ₚ task_of <$> map_to_list m ∧
    list_to_set (task_pair <$> ts) =@{gset (string * option string)}
      list_to_set ((λ kv, (kv.1, if decide (kv.2 = "") then None else Some kv.2))
                     <$> map_to_list m).
Proof.
  intros Hm. rewrite ReconcileTasks_nonempty by done.
  eexists; split; [reflexivity|].
  assert (task_of <$> visit ro (map_to_list m) ≡ₚ task_of <$> map_to_list m)
    as Hperm by (by rewrite (visit_perm ro)).
  assert ((TaskID_Value ∘ task_TaskID) <$> (task_of <$> map_to_list m)
          = (map_to_list m).*1) as Hkeys.
  { rewrite <-list_fmap_compose. by apply list_fmap_ext. }
  repeat split.
  - by rewrite Hperm, length_fmap, length_map_to_list.
  - by rewrite Hperm, Hkeys.
  - rewrite Hperm, Hkeys. apply NoDup_fst_map_to_list.
  - done.
  - rewrite Hperm, <-list_fmap_compose. f_equal.
    apply list_fmap_ext. intros _ [k v] _. unfold task_pair, task_of; cbn.
    unfold optionalAgentID. by case_decide.
Qed.

(** C7: for a non-empty mapping [ReconcileTasks] stores one entry per key:
    as many entries as keys, the task identifiers being the keys, each
    once; the entries are those of the mapping in the order visited, and
    their (taskID, agentID-or-absent) pairs are the mapping's entries with
    the empty agentID turned into an absent one.  For the mapping of t1
    to a1 and t2 to the empty string, in whatever order it is visited,
    there are two entries, with the pairs (t1, a1) and (t2, absent). *)
Theorem ReconcileTasks_entries ro (m : gmap string string) (cr : Call_Reconcile) :
  (m ≠ ∅ →
   ∃ ts, reconcile_Tasks (ReconcileTasks ro m cr) = Some ts ∧
     length ts = size m ∧
     (TaskID_Value ∘ task_TaskID) <$> ts ≡ₚ (map_to_list m).*1 ∧
     NoDup ((TaskID_Value ∘ task_TaskID) <$> ts) ∧
     ts ≡ₚ task_of <$> map_to_list m ∧
     list_to_set (task_pair <$> ts) =@{gset (string * option string)}
       list_to_set ((λ kv, (kv.1, if decide (kv.2 = "") then None else Some kv.2))
                      <$> map_to_list m)) ∧
  (∃ ts, reconcile_Tasks
           (ReconcileTasks ro {[ "t1" := "a1"; "t2" := "" ]} cr) = Some ts ∧
     length ts = 2 ∧
     list_to_set (task_pair <$> ts) =@{gset (string * option string)}
       {[ ("t1", Some "a1"); ("t2", None) ]}).
Proof.
  split; [apply ReconcileTasks_stores|].
  destruct (ReconcileTasks_stores ro {[ "t1" := "a1"; "t2" := "" ]} cr)
    as (ts & Hts & Hlen & _ & _ & _ & Hset); [apply insert_non_empty|].
  exists ts. split; [done|]. split.
  - rewrite Hlen. by vm_compute.
  - rewrite Hset. by vm_compute.
Qed.

(** C10: a second [ReconcileTasks] replaces what the first stored: with
    [m2] non-empty, the call built from both modifiers is the call built
    from the second alone, its entries are those of [m2], and no entry
    carries a key that only [m1] has. *)
Theorem ReconcileTasks_replaces ro1 ro2 (m1 m2 : gmap string string) :
  m2 ≠ ∅ →
  Reconcile [ReconcileTasks ro1 m1; ReconcileTasks ro2 m2] =
    Reconcile [ReconcileTasks ro2 m2] ∧
  (∀ cr, ReconcileTasks ro2 m2 (ReconcileTasks ro1 m1 cr) =
           ReconcileTasks ro2 m2 cr) ∧
  ∃ ts, tasks_of (Reconcile [ReconcileTasks ro1 m1; ReconcileTasks ro2 m2]) = Some ts ∧
    ts ≡ₚ task_of <$> map_to_list m2 ∧
    ∀ k, k ∈ dom m1 → k ∉ dom m2 →
      ∀ e, e ∈ ts → TaskID_Value (task_TaskID e) ≠ k.
Proof.
  intros Hm2.
  assert (∀ cr, ReconcileTasks ro2 m2 (ReconcileTasks ro1 m1 cr) =
                ReconcileTasks ro2 m2 cr) as Hrepl.
  { intros cr. by rewrite !(ReconcileTasks_nonempty ro2 m2) by done. }
  split; [|split; [done|]].
  - unfold Reconcile, Call_Reconcile_With; cbn. by rewrite Hrepl.
  - unfold Reconcile, Call_Reconcile_With, tasks_of; cbn.
    rewrite Hrepl, ReconcileTasks_nonempty by done; cbn.
    eexists; split; [reflexivity|]. split.
    + by rewrite (visit_perm ro2).
    + intros k _ Hk2 e He <-.
      rewrite (visit_perm ro2) in He.
      apply list_elem_of_fmap in He as ([k' v] & -> & Hkv).
      apply elem_of_map_to_list in Hkv. cbn in Hk2.
      apply Hk2, elem_of_dom. by eexists.
Qed.

(** ** The accept builder *)

Lemma elems_foldl_append {A} (s : slice A) (l : list A) :
  elems (foldl append s l) = elems s ++ l.
Proof.
  revert s. induction l as [|x l IH]; intros s; cbn [foldl].
  - by rewrite app_nil_r.
  - rewrite IH. cbn. by rewrite <-(assoc_L (++)).
Qed.

Lemma elems_foldl_builders (s : slice Offer_Operation) (bs : list OperationBuilder) :
  elems (foldl (λ s op, append s (op ())) s bs) =
    elems s ++ ((λ op : OperationBuilder, op ()) <$> bs).
Proof.
  revert s. induction bs as [|b bs IH]; intros s; cbn [foldl].
  - by rewrite app_nil_r.
  - rewrite IH. cbn. by rewrite <-(assoc_L (++)).
Qed.

(** The builder after the modifiers of [attach l]. *)
Lemma attach_builder l (ab : acceptBuilder) :
  offerIDs (foldl (λ ab op, op ab) ab (attach l)) =
    list_to_set l.*1 ∪ offerIDs ab ∧
  elems (operations (foldl (λ ab op, op ab) ab (attach l))) =
    elems (operations ab) ++ built_operations l.
Proof.
  revert ab. induction l as [|[oid bs] l IH]; intros ab.
  - cbn. split; [by rewrite (left_id_L ∅ (∪))|]. by rewrite app_nil_r.
  - unfold attach in *. rewrite fmap_cons. cbn [foldl fst snd].
    destruct (IH (OfferWithOperations oid bs ab)) as [-> ->].
    cbn [OfferWithOperations offerIDs operations]. split.
    + rewrite fmap_cons. cbn [fst list_to_set].
      by rewrite (assoc_L (∪)), (comm_L (∪) (list_to_set l.*1)).
    + rewrite elems_foldl_builders. unfold built_operations.
      by rewrite <-(assoc_L (++)).
Qed.

Lemma Accept_offer_ids ro (ops : list AcceptOpt) :
  offer_ids (Accept ro ops) =
    visit ro (elements (offerIDs
      (foldl (λ ab op, op ab) {| offerIDs := ∅; operations := None |} ops))).
Proof.
  unfold offer_ids, Accept. cbn [call_Accept accept_OfferIDs].
  by rewrite elems_foldl_append.
Qed.

Lemma Accept_offer_set ro l :
  offer_set (Accept ro (attach l)) = list_to_set l.*1.
Proof.
  unfold offer_set. rewrite Accept_offer_ids, (visit_perm ro).
  rewrite list_to_set_elements_L.
  destruct (attach_builder l {| offerIDs := ∅; operations := None |}) as [-> _].
  cbn [offerIDs]. by rewrite (right_id_L ∅ (∪)).
Qed.

Lemma Accept_operations ro l :
  operations_of (Accept ro (attach l)) = built_operations l.
Proof.
  unfold operations_of, Accept. cbn [call_Accept accept_Operations].
  by destruct (attach_builder l {| offerIDs := ∅; operations := None |}) as [_ ->].
Qed.

(** C5: two modifier lists that are permutations of each other give accept
    calls with the same set of offer identifiers, whatever order the
    identifiers are collected in; and the operations of an accept call
    are the concatenation, in the order supplied, of the operations its
    offers' builders produce. *)
Theorem Accept_offer_set_and_operation_order
    (l1 l2 : list (OfferID * list OperationBuilder)) ro1 ro2 :
  l1 ≡ₚ l2 →
  offer_set (Accept ro1 (attach l1)) = offer_set (Accept ro2 (attach l2)) ∧
  operations_of (Accept ro1 (attach l1)) = built_operations l1 ∧
  operations_of (Accept ro2 (attach l2)) = built_operations l2 ∧
  ∀ a b rs ti vs,
    operations_of (Accept ro1 [OfferWithOperations a [OpReserve rs; OpLaunch ti];
                               OfferWithOperations b [OpCreate vs]]) =
      [OpReserve rs (); OpLaunch ti (); OpCreate vs ()].
Proof.
  intros Hperm. rewrite !Accept_offer_set, !Accept_operations.
  split; [by rewrite Hperm|]. do 2 (split; [reflexivity|]).
  intros a b rs ti vs.
  apply (Accept_operations ro1 [(a, [OpReserve rs; OpLaunch ti]); (b, [OpCreate vs])]).
Qed.

Lemma filter_absent {A} `{EqDecision A} (x : A) (l : list A) :
  x ∉ l → filter (λ y, y = x) l = [].
Proof.
  induction l as [|y l IH]; intros Hx; [done|].
  apply not_elem_of_cons in Hx as [Hxy Hx].
  rewrite filter_cons_False by congruence. auto.
Qed.

Lemma filter_once {A} `{EqDecision A} (x : A) (l : list A) :
  NoDup l → x ∈ l → length (filter (λ y, y = x) l) = 1.
Proof.
  induction l as [|y l IH]; intros Hnd Hx; [by apply elem_of_nil in Hx|].
  apply NoDup_cons in Hnd as [Hy Hnd].
  destruct (decide (y = x)) as [->|Hne].
  - rewrite filter_cons_True by done. by rewrite filter_absent.
  - rewrite filter_cons_False by done.
    apply IH; [done|]. apply elem_of_cons in Hx as [->|]; done.
Qed.

(** C6: the offer identifiers of a call built by [Accept] hold no
    duplicate; with [OfferWithOperations] modifiers they are the attached
    identifiers, an identifier attached several times occurring once,
    while the operations of every modifier are kept, in order. *)
Theorem Accept_offerIDs_unique ro (ops : list AcceptOpt)
    (l : list (OfferID * list OperationBuilder)) :
  NoDup (offer_ids (Accept ro ops)) ∧
  NoDup (offer_ids (Accept ro (attach l))) ∧
  (∀ oid, oid ∈ offer_ids (Accept ro (attach l)) ↔ oid ∈ l.*1) ∧
  (∀ oid, oid ∈ l.*1 →
     length (filter (λ x, x = oid) (offer_ids (Accept ro (attach l)))) = 1) ∧
  operations_of (Accept ro (attach l)) = built_operations l ∧
  (∀ oid bs1 bs2,
     offer_ids (Accept ro (attach [(oid, bs1); (oid, bs2)])) = [oid] ∧
     operations_of (Accept ro (attach [(oid, bs1); (oid, bs2)])) =
       ((λ op : OperationBuilder, op ()) <$> bs1) ++
       ((λ op : OperationBuilder, op ()) <$> bs2)).
Proof.
  assert (∀ ops', NoDup (offer_ids (Accept ro ops'))) as Hnd.
  { intros ops'. rewrite Accept_offer_ids, (visit_perm ro). apply NoDup_elements. }
  assert (∀ l' oid, oid ∈ offer_ids (Accept ro (attach l')) ↔ oid ∈ l'.*1) as Hin.
  { intros l' oid.
    rewrite <-(elem_of_list_to_set (C:=gset OfferID) oid l'.*1).
    rewrite <-Accept_offer_set with (ro := ro). unfold offer_set.
    by rewrite elem_of_list_to_set. }
  split; [done|]. split; [done|]. split; [done|]. split; [|split].
  - intros oid Hoid. apply filter_once; [done|]. by apply Hin.
  - apply Accept_operations.
  - intros oid bs1 bs2. split.
    + specialize (Hnd (attach [(oid, bs1); (oid, bs2)])).
      pose proof (Hin [(oid, bs1); (oid, bs2)]) as Hin'.
      change ([(oid, bs1); (oid, bs2)].*1) with [oid; oid] in Hin'.
      assert (∀ x, x ∈ [oid; oid] → x = oid) as Hsame.
      { intros x Hx. apply elem_of_cons in Hx as [->|Hx]; [done|].
        by apply list_elem_of_singleton in Hx. }
      destruct (offer_ids (Accept ro (attach [(oid, bs1); (oid, bs2)])))
        as [|x [|y ids]].
      * exfalso. eapply (elem_of_nil oid), Hin'. left.
      * f_equal. apply Hsame, Hin'. left.
      * exfalso. apply NoDup_cons in Hnd as [Hxy _]. apply Hxy.
        rewrite (Hsame x) by (apply Hin'; left).
        rewrite (Hsame y) by (apply Hin'; right; left). left.
    + rewrite Accept_operations. unfold built_operations. cbn.
      by rewrite app_nil_r.
Qed.

End properties.

(** * Further properties of the package *)

Section further_properties.
Context `{Imports}.

(** ** [Filters] and [Framework] *)

(** X1: [Filters] returns exactly on a call whose discriminant is Accept
    or Decline and whose payload of that kind is present; it ends in a
    nil dereference exactly when the discriminant is nil or the payload
    of an Accept or Decline call is nil; whether it returns does not
    depend on the filter options. *)
Theorem Filters_returns_iff (fo : list FilterOpt) (c : Call) :
  ((∃ c', Filters fo c = Returns c') ↔
     (call_Type c = Some Call_ACCEPT ∧ is_Some (call_Accept c)) ∨
     (call_Type c = Some Call_DECLINE ∧ is_Some (call_Decline c))) ∧
  (Filters fo c = Panics NilDereference ↔
     call_Type c = None ∨
     (call_Type c = Some Call_ACCEPT ∧ call_Accept c = None) ∨
     (call_Type c = Some Call_DECLINE ∧ call_Decline c = None)).
Proof.
  unfold Filters.
  destruct (call_Type c) as [[]|], (call_Accept c) as [a|], (call_Decline c) as [d|];
    (split; split);
    solve [ intros [c' [=]] | intros [=] | eauto 6
          | intros [[[=] Hs]|[[=] Hs]]; try by apply is_Some_None in Hs
          | intros [[=]|[[[=] [=]]|[[=] [=]]]] ].
Qed.

(** X2: when [Filters] returns, the call it returns differs from the one
    it was given in one filter field only.  The discriminant, the
    framework identity and the payloads other than Accept and Decline are
    those of the call given.  For an accept call the Decline payload is
    untouched and the Accept payload has the same offer-identifier and
    operation slices (nil kept nil) and [OptionalFilters] of the options
    as its filters; for a decline call likewise with the two payloads
    exchanged.  The populated variants are the same, so a well-formed
    call stays well-formed. *)
Theorem Filters_frame (fo : list FilterOpt) (c c' : Call) :
  Filters fo c = Returns c' →
  call_Type c' = call_Type c ∧
  call_FrameworkID c' = call_FrameworkID c ∧
  call_Subscribe c' = call_Subscribe c ∧
  call_Kill c' = call_Kill c ∧
  call_Shutdown c' = call_Shutdown c ∧
  call_Acknowledge c' = call_Acknowledge c ∧
  call_Reconcile c' = call_Reconcile c ∧
  call_Message c' = call_Message c ∧
  call_Request c' = call_Request c ∧
  ((call_Type c = Some Call_ACCEPT ∧
    call_Decline c' = call_Decline c ∧
    ∃ a a', call_Accept c = Some a ∧ call_Accept c' = Some a' ∧
      accept_OfferIDs a' = accept_OfferIDs a ∧
      accept_Operations a' = accept_Operations a ∧
      accept_Filters a' = OptionalFilters fo) ∨
   (call_Type c = Some Call_DECLINE ∧
    call_Accept c' = call_Accept c ∧
    ∃ d d', call_Decline c = Some d ∧ call_Decline c' = Some d' ∧
      decline_OfferIDs d' = decline_OfferIDs d ∧
      decline_Filters d' = OptionalFilters fo)) ∧
  populated c' = populated c ∧
  (well_formed c → well_formed c').
Proof.
  unfold Filters, well_formed.
  destruct c as [[[]|] fid sub acc dec kil shu ack rec msg req]; cbn;
    try discriminate.
  - destruct acc as [a|]; [|discriminate]. intros [= <-]; cbn.
    do 9 (split; [reflexivity|]). split; [|by split].
    left. split; [reflexivity|]. split; [reflexivity|].
    exists a. eexists. by repeat split.
  - destruct dec as [d|]; [|discriminate]. intros [= <-]; cbn.
    do 9 (split; [reflexivity|]). split; [|by split].
    right. split; [reflexivity|]. split; [reflexivity|].
    exists d. eexists. by repeat split.
Qed.


(** X4: [Framework] and [Filters] commute: applied in either order to any
    call they give the same outcome, the same panic included. *)
Theorem Framework_Filters_commute (fo : list FilterOpt) (id : string) (c : Call) :
  and_then (Framework id) (Filters fo) c = and_then (Filters fo) (Framework id) c.
Proof.
  unfold and_then, Framework, Filters.
  destruct c as [[[]|] fid sub acc dec kil shu ack rec msg req]; cbn;
    try reflexivity.
  - by destruct acc.
  - by destruct dec.
Qed.

(** X5: on a call fresh from one of the ten constructors [Filters] never
    dereferences nil: it returns a well-formed call carrying
    [OptionalFilters] of the options when the constructor is [Accept] or
    [Decline], and panics with the usage message naming the call's kind
    for the other eight. *)
Theorem Filters_on_constructed (fo : list FilterOpt) (i : invocation) :
  match kind i with
  | Call_ACCEPT | Call_DECLINE =>
      ∃ c', Filters fo (invoke i) = Returns c' ∧ well_formed c' ∧
            call_Type c' = Some (kind i) ∧
            filters_of c' = OptionalFilters fo
  | k =>
      Filters fo (invoke i) =
        Panics (PanicMsg ("filters not supported for type " +:+ Call_Type_String k))
  end.
Proof.
  destruct i; cbn; try reflexivity; eexists; (split; [reflexivity|]); by cbn.
Qed.

(** X6: the constructors leave what the callers are expected to fill in:
    every constructor but [Subscribe] returns a call without framework
    identity, and no constructor sets filters; the call of [Subscribe]
    carries the identity of the very info its payload holds, with the
    [force] flag as given. *)
Theorem constructors_leave_id_and_filters (i : invocation) :
  (kind i ≠ Call_SUBSCRIBE → call_FrameworkID (invoke i) = None) ∧
  filters_of (invoke i) = None ∧
  (∀ force info, invoke i = Subscribe force info →
     ∃ p, call_Subscribe (invoke i) = Some p ∧
          subscribe_Force p = force ∧
          subscribe_FrameworkInfo p = info ∧
          call_FrameworkID (invoke i) = GetID (subscribe_FrameworkInfo p)).
Proof.
  split; [by destruct i|]. split; [by destruct i|].
  intros force info ->. by eexists.
Qed.

(** ** The accept builder, further *)

Lemma foldl_builders_nil (s : slice Offer_Operation) (bs : list OperationBuilder) :
  foldl (λ s op, append s (op ())) s bs = None ↔ s = None ∧ bs = [].
Proof.
  split; [|by intros [-> ->]].
  destruct bs as [|b bs]; [done|]. cbn [foldl]. unfold append at 2.
  generalize (elems s ++ [b ()]). intros l Hl. exfalso. revert l Hl.
  induction bs as [|b' bs IH]; intros l; [done|]. cbn [foldl]. apply IH.
Qed.

Lemma attach_builder_nil l (ab : acceptBuilder) :
  operations (foldl (λ ab op, op ab) ab (attach l)) = None ↔
    operations ab = None ∧ built_operations l = [].
Proof.
  revert ab. induction l as [|[oid bs] l IH]; intros ab;
    [cbn; split; [by intros -> | by intros [-> _]]|].
  unfold attach in *. rewrite fmap_cons. cbn [foldl fst snd].
  rewrite IH. cbn [OfferWithOperations operations].
  rewrite foldl_builders_nil. unfold built_operations. cbn.
  split.
  - intros [[-> ->] ->]. done.
  - intros [-> Happ]. apply app_eq_nil in Happ as [Hbs ->].
    by apply fmap_nil_inv in Hbs as ->.
Qed.

Lemma foldl_append_Some {A} (acc l : list A) :
  foldl append (Some acc) l = Some (acc ++ l).
Proof.
  revert acc. induction l as [|x l IH]; intros acc; cbn [foldl].
  - by rewrite app_nil_r.
  - unfold append at 2. cbn. by rewrite IH, <-(assoc_L (++)).
Qed.

Lemma built_operations_nil (l : list (OfferID * list OperationBuilder)) :
  built_operations l = [] ↔ ∀ p, p ∈ l → p.2 = [].
Proof.
  unfold built_operations. induction l as [|[oid bs] l IH]; cbn.
  - split; [|done]. intros _ p Hp. by apply elem_of_nil in Hp.
  - split.
    + intros Happ. apply app_eq_nil in Happ as [Hbs Hl].
      apply fmap_nil_inv in Hbs as ->. intros p Hp.
      apply elem_of_cons in Hp as [->|Hp]; [done|]. by apply IH.
    + intros Hall. assert (bs = []) as -> by (apply (Hall (oid, bs)); left).
      cbn. apply IH. intros p Hp. apply Hall. by right.
Qed.

(** X7: nil and empty in an accept call: the offer identifiers are never
    the nil slice, not even with no modifier at all, where they are the
    empty non-nil slice; the operations are the nil slice exactly when no
    modifier supplied an operation builder; the filters are unset. *)
Theorem Accept_nil_and_empty ro (l : list (OfferID * list OperationBuilder)) :
  ∃ a, call_Accept (Accept ro (attach l)) = Some a ∧
    accept_OfferIDs a = Some (offer_ids (Accept ro (attach l))) ∧
    (l = [] → accept_OfferIDs a = Some []) ∧
    (accept_Operations a = None ↔ built_operations l = []) ∧
    (accept_Operations a = None ↔ ∀ p, p ∈ l → p.2 = []) ∧
    accept_Filters a = None.
Proof.
  rewrite Accept_offer_ids. unfold Accept. cbn [call_Accept]. eexists.
  split; [reflexivity|]. cbn [accept_OfferIDs accept_Operations accept_Filters].
  rewrite foldl_append_Some, app_nil_l.
  assert (operations (foldl (λ ab op, op ab)
            {| offerIDs := ∅; operations := None |} (attach l)) = None ↔
          built_operations l = []) as Hnil.
  { rewrite attach_builder_nil. cbn. split; [by intros [_ ?]|done]. }
  split; [done|]. split.
  { intros ->. cbn. rewrite elements_empty.
    pose proof (visit_perm ro []) as Hp. by apply Permutation_nil_r in Hp as ->. }
  split; [done|]. split; [|done].
  by rewrite Hnil, built_operations_nil.
Qed.

Lemma built_operations_app (l1 l2 : list (OfferID * list OperationBuilder)) :
  built_operations (l1 ++ l2) = built_operations l1 ++ built_operations l2.
Proof. unfold built_operations. apply bind_app. Qed.

Lemma built_operations_length (l : list (OfferID * list OperationBuilder)) :
  length (built_operations l) = sum_list ((λ p, length p.2) <$> l).
Proof.
  unfold built_operations. induction l as [|[oid bs] l IH]; [done|]. cbn.
  rewrite length_app, length_fmap. f_equal. apply IH.
Qed.

(** X8: attaching modifier lists one after the other: the operations of
    the accept call of [l1 ++ l2] are those of [l1] followed by those of
    [l2], their number is the number of builders supplied, and the set of
    offer identifiers is the union of the two sets. *)
Theorem Accept_app ro ro1 ro2 (l1 l2 : list (OfferID * list OperationBuilder)) :
  operations_of (Accept ro (attach (l1 ++ l2))) =
    operations_of (Accept ro1 (attach l1)) ++ operations_of (Accept ro2 (attach l2)) ∧
  offer_set (Accept ro (attach (l1 ++ l2))) =
    offer_set (Accept ro1 (attach l1)) ∪ offer_set (Accept ro2 (attach l2)) ∧
  length (operations_of (Accept ro (attach (l1 ++ l2)))) =
    sum_list ((λ p, length p.2) <$> (l1 ++ l2)).
Proof.
  rewrite !Accept_operations, !Accept_offer_set.
  split; [apply built_operations_app|].
  split; [by rewrite fmap_app, list_to_set_app_L|].
  apply built_operations_length.
Qed.

(** X9: the number of offer identifiers of an accept call is the number
    of distinct identifiers attached: at most the number of modifiers, and
    equal to it exactly when no identifier was attached twice. *)
Theorem Accept_offer_count ro (l : list (OfferID * list OperationBuilder)) :
  length (offer_ids (Accept ro (attach l))) = length (remove_dups l.*1) ∧
  (length (offer_ids (Accept ro (attach l))) ≤ length l)%nat ∧
  (length (offer_ids (Accept ro (attach l))) = length l ↔ NoDup l.*1).
Proof.
  assert (offer_ids (Accept ro (attach l)) ≡ₚ remove_dups l.*1) as Hperm.
  { apply NoDup_Permutation.
    - rewrite Accept_offer_ids, (visit_perm ro). apply NoDup_elements.
    - apply NoDup_remove_dups.
    - intros oid. rewrite elem_of_remove_dups.
      rewrite <-(elem_of_list_to_set (C:=gset OfferID) oid l.*1).
      rewrite <-Accept_offer_set with (ro := ro). unfold offer_set.
      by rewrite elem_of_list_to_set. }
  rewrite Hperm.
  assert (length (remove_dups l.*1) ≤ length l.*1)%nat as Hle.
  { generalize (l.*1). intros ids. induction ids as [|x ids IH]; cbn; [lia|].
    case_decide; cbn; lia. }
  rewrite length_fmap in Hle.
  split; [done|]. split; [done|].
  rewrite <-(length_fmap fst l). generalize (l.*1). intros ids.
  assert (∀ ks : list OfferID, (length (remove_dups ks) ≤ length ks)%nat) as Hlen.
  { intros ks. induction ks as [|x ks IH]; cbn; [lia|]. case_decide; cbn; lia. }
  induction ids as [|x ids IH]; cbn.
  - split; [constructor|done].
  - case_decide as Hx.
    + split; [pose proof (Hlen ids); lia|].
      intros Hnd. by apply NoDup_cons in Hnd as [Hnx _].
    + cbn. split.
      * intros [= Heq]. apply NoDup_cons. split; [done|]. by apply IH.
      * intros Hnd. apply NoDup_cons in Hnd as [_ Hnd]. f_equal. by apply IH.
Qed.

(** X10: an [OfferWithOperations] modifier only adds: the identifiers
    and operations already in the builder are kept, the operations as a
    prefix, its own identifier is in, and it appends one operation per
    builder; attaching an identifier already in, with no builders, leaves
    the identifiers and the operations as they are. *)
Theorem OfferWithOperations_only_adds (oid : OfferID)
    (opOpts : list OperationBuilder) (ab : acceptBuilder) :
  offerIDs ab ⊆ offerIDs (OfferWithOperations oid opOpts ab) ∧
  oid ∈ offerIDs (OfferWithOperations oid opOpts ab) ∧
  offerIDs (OfferWithOperations oid opOpts ab) = {[ oid ]} ∪ offerIDs ab ∧
  elems (operations (OfferWithOperations oid opOpts ab)) =
    elems (operations ab) ++ ((λ op : OperationBuilder, op ()) <$> opOpts) ∧
  len (operations (OfferWithOperations oid opOpts ab)) =
    len (operations ab) + length opOpts ∧
  (oid ∈ offerIDs ab →
     offerIDs (OfferWithOperations oid [] ab) = offerIDs ab ∧
     operations (OfferWithOperations oid [] ab) = operations ab).
Proof.
  cbn [OfferWithOperations offerIDs operations].
  split; [apply union_subseteq_r|].
  split; [apply elem_of_union_l, elem_of_singleton; done|].
  split; [done|].
  split; [apply elems_foldl_builders|].
  split.
  - unfold len. by rewrite elems_foldl_builders, length_app, length_fmap.
  - intros Hin. split; [|done].
    apply subseteq_union_1_L, singleton_subseteq_l, Hin.
Qed.

(** ** Operation builders *)

(** X11: each of the five operation builders produces an operation whose
    discriminant is its kind and whose only populated variant is the one
    of that kind; so every operation of an accept call put together from
    these builders is well-formed, and there is one per builder. *)
Theorem builders_well_formed ro (b : builder_call)
    (l : list (OfferID * list builder_call)) :
  op_Type (builder_of b ()) = Some (builder_kind b) ∧
  op_populated (builder_of b ()) = [builder_kind b] ∧
  Forall (λ op, ∃ k, op_Type op = Some k ∧ op_populated op = [k])
         (operations_of (Accept ro (attach_built l))) ∧
  (op_Type <$> operations_of (Accept ro (attach_built l))) =
    (l ≫= λ p, (Some ∘ builder_kind) <$> p.2).
Proof.
  split; [by destruct b|]. split; [by destruct b|].
  unfold attach_built. rewrite Accept_operations. unfold built_operations.
  split.
  - apply Forall_forall. intros op Hop.
    apply list_elem_of_bind in Hop as (p' & Hop & Hp').
    apply list_elem_of_fmap in Hp' as (p & -> & _). cbn in Hop.
    rewrite <-list_fmap_compose in Hop.
    apply list_elem_of_fmap in Hop as ([] & -> & _); by eexists.
  - induction l as [|[oid bs] l IH]; [done|]. cbn.
    rewrite fmap_app, IH. f_equal.
    rewrite <-!list_fmap_compose. apply list_fmap_ext. by intros _ [] _.
Qed.

(** X12: an operation determines the builder call that made it: two
    builder calls producing the same operation are the same constructor
    with the same argument (nil and empty arguments told apart). *)
Theorem builder_of_inj (b1 b2 : builder_call) :
  builder_of b1 () = builder_of b2 () → b1 = b2.
Proof.
  destruct b1, b2; cbn; intros [=]; congruence.
Qed.

(** ** The reconcile-task modifier, further *)

Lemma ReconcileTasks_tasks ro (m : gmap string string) cr :
  elems (reconcile_Tasks (ReconcileTasks ro m cr)) =
    task_of <$> visit ro (map_to_list m).
Proof.
  destruct (decide (m = ∅)) as [->|Hm].
  - rewrite ReconcileTasks_empty. cbn. rewrite map_to_list_empty.
    pose proof (visit_perm ro (@nil (string * string))) as Hp.
    by apply Permutation_nil_r in Hp as ->.
  - by rewrite ReconcileTasks_nonempty.
Qed.

(** X13: for every mapping, empty or not, the task list [ReconcileTasks]
    stores has as many entries as the mapping has keys, and it is the nil
    slice exactly when the mapping is empty. *)
Theorem ReconcileTasks_len ro (m : gmap string string) (cr : Call_Reconcile) :
  len (reconcile_Tasks (ReconcileTasks ro m cr)) = size m ∧
  (reconcile_Tasks (ReconcileTasks ro m cr) = None ↔ m = ∅).
Proof.
  split.
  - unfold len. rewrite ReconcileTasks_tasks, length_fmap.
    by rewrite (visit_perm ro), length_map_to_list.
  - split.
    + intros Hnil. destruct (decide (m = ∅)) as [|Hm]; [done|].
      by rewrite ReconcileTasks_nonempty in Hnil.
    + intros ->. by rewrite ReconcileTasks_empty.
Qed.

(** X14: looking a task up in the stored list: an entry with task
    identifier [k] and agent [a] is stored exactly when the mapping binds
    [k] to a string [v] of which [a] is the optional agent; so a key of
    the mapping has one entry and a string that is no key has none. *)
Theorem ReconcileTasks_lookup ro (m : gmap string string) (cr : Call_Reconcile)
    (k : string) (a : option AgentID) :
  ({| task_TaskID := {| TaskID_Value := k |}; task_AgentID := a |}
     ∈ elems (reconcile_Tasks (ReconcileTasks ro m cr)) ↔
   ∃ v, m !! k = Some v ∧ a = optionalAgentID v) ∧
  (m !! k = None →
   ∀ e, e ∈ elems (reconcile_Tasks (ReconcileTasks ro m cr)) →
        TaskID_Value (task_TaskID e) ≠ k).
Proof.
  rewrite ReconcileTasks_tasks. split.
  - rewrite list_elem_of_fmap. split.
    + intros ([k' v] & [= -> ->] & Hin). rewrite (visit_perm ro) in Hin.
      apply elem_of_map_to_list in Hin. eauto.
    + intros (v & Hv & ->). exists (k, v). split; [done|].
      rewrite (visit_perm ro). by apply elem_of_map_to_list.
  - intros Hk e He <-. apply list_elem_of_fmap in He as ([k' v] & -> & Hin).
    rewrite (visit_perm ro) in Hin. apply elem_of_map_to_list in Hin.
    cbn in Hk. congruence.
Qed.

(** X15: whatever modifiers come first, the last [ReconcileTasks] decides
    the task list of the call: the call built from [opts] followed by
    [ReconcileTasks] of a mapping is the call built from that modifier
    alone, which for the empty mapping is the call with no modifier. *)
Theorem Reconcile_last_wins ro (m : gmap string string) (opts : list ReconcileOpt) :
  Reconcile (opts ++ [ReconcileTasks ro m]) = Reconcile [ReconcileTasks ro m] ∧
  Reconcile (opts ++ [ReconcileTasks ro ∅]) = Reconcile [].
Proof.
  unfold Reconcile, Call_Reconcile_With. rewrite !foldl_app. cbn [foldl].
  split; [done|]. by rewrite ReconcileTasks_empty.
Qed.

(** X16: no agent that is present is empty: [optionalAgentID] returns an
    agent only for a non-empty string, with that string as its value,
    and is injective; hence neither the Kill payload nor any entry
    stored by [ReconcileTasks] holds a present agent with the empty
    value. *)
Theorem optional_agent_never_empty ro (m : gmap string string)
    (cr : Call_Reconcile) (taskID s : string) :
  (∀ a, optionalAgentID s = Some a → AgentID_Value a = s ∧ s ≠ "") ∧
  (optionalAgentID s = None ↔ s = "") ∧
  (∀ s', optionalAgentID s = optionalAgentID s' → s = s') ∧
  (∀ p a, call_Kill (Kill taskID s) = Some p → kill_AgentID p = Some a →
          AgentID_Value a ≠ "") ∧
  (∀ e a, e ∈ elems (reconcile_Tasks (ReconcileTasks ro m cr)) →
          task_AgentID e = Some a → AgentID_Value a ≠ "").
Proof.
  assert (∀ s0 a, optionalAgentID s0 = Some a → AgentID_Value a = s0 ∧ s0 ≠ "")
    as Hsome.
  { intros s0 a. unfold optionalAgentID. case_decide; [done|]. by intros [= <-]. }
  split; [apply Hsome|]. split; [|split; [|split]].
  - unfold optionalAgentID. by case_decide.
  - intros s'. unfold optionalAgentID. repeat case_decide; congruence.
  - intros p a [= <-] Ha. cbn in Ha. apply Hsome in Ha as [-> ?]. done.
  - intros e a He Ha. rewrite ReconcileTasks_tasks in He.
    apply list_elem_of_fmap in He as ([k v] & -> & _). cbn in Ha.
    apply Hsome in Ha as [-> ?]. done.
Qed.

(** ** Constructors that pass their arguments through *)

(** X17: the arguments of a call can be read back from it: [Decline],
    [Kill], [Shutdown], [Acknowledge], [Message], [Request] and
    [Subscribe] are injective, a nil slice and an empty one giving
    different calls; and calls of different constructors differ. *)
Theorem constructors_injective :
  (∀ ids1 ids2, Decline ids1 = Decline ids2 → ids1 = ids2) ∧
  (∀ t1 a1 t2 a2, Kill t1 a1 = Kill t2 a2 → t1 = t2 ∧ a1 = a2) ∧
  (∀ e1 a1 e2 a2, Shutdown e1 a1 = Shutdown e2 a2 → e1 = e2 ∧ a1 = a2) ∧
  (∀ a1 t1 u1 a2 t2 u2,
     Acknowledge a1 t1 u1 = Acknowledge a2 t2 u2 → a1 = a2 ∧ t1 = t2 ∧ u1 = u2) ∧
  (∀ a1 e1 d1 a2 e2 d2,
     Message a1 e1 d1 = Message a2 e2 d2 → a1 = a2 ∧ e1 = e2 ∧ d1 = d2) ∧
  (∀ r1 r2, Request r1 = Request r2 → r1 = r2) ∧
  (∀ f1 i1 f2 i2, Subscribe f1 i1 = Subscribe f2 i2 → f1 = f2 ∧ i1 = i2) ∧
  (∀ i j : invocation, invoke i = invoke j → kind i = kind j) ∧
  Decline None ≠ Decline (Some []).
Proof.
  split; [by intros ids1 ids2 [=]|].
  split.
  { intros t1 a1 t2 a2 [= -> Ha]. split; [done|].
    revert Ha. unfold optionalAgentID. repeat case_decide; congruence. }
  split; [by intros e1 a1 e2 a2 [= -> ->]|].
  split; [by intros a1 t1 u1 a2 t2 u2 [= -> -> ->]|].
  split; [by intros a1 e1 d1 a2 e2 d2 [= -> -> ->]|].
  split; [by intros r1 r2 [=]|].
  split; [intros f1 i1 f2 i2 [=]; split; congruence|].
  split; [|discriminate].
  intros i j Heq. apply (f_equal call_Type) in Heq.
  destruct i, j; cbn in *; congruence.
Qed.

(** ** [errInvalidCall] *)

(** X18: the message of [errInvalidCall] is the reason behind a fixed
    prefix of 14 characters: it is never empty, and different reasons
    give different messages. *)
Theorem errInvalidCall_message (r1 r2 : string) :
  errInvalidCall r1 = "invalid call: " +:+ r1 ∧
  String.length (errInvalidCall r1) = 14 + String.length r1 ∧
  errInvalidCall r1 ≠ "" ∧
  (errInvalidCall r1 = errInvalidCall r2 → r1 = r2).
Proof.
  unfold errInvalidCall. cbn. repeat split; try done. by intros [=].
Qed.

End further_properties.

(** * The properties at the sample instance *)

#[local] Existing Instance sample_imports.

(** C1 (as stated) fails for [Revive]: the call it returns has the
    discriminant [Call_REVIVE] and no payload variant populated, so it
    does not populate exactly one. *)
Lemma Revive_populates_nothing :
  kind Invoke_Revive = Call_REVIVE ∧
  populated (invoke Invoke_Revive) = [] ∧
  populated (invoke Invoke_Revive) ≠
    [kind Invoke_Revive].
Proof. by repeat split. Qed.

(** C2 (as stated) fails: the call built with [ReconcileTasks] of the
    empty mapping carries the nil task list, not a present list of length
    0, and equals the call built with no modifier. *)
Lemma Reconcile_empty_mapping_is_absent :
  tasks_of (Reconcile [ReconcileTasks stored_order ∅]) ≠ Some [] ∧
  Reconcile [ReconcileTasks stored_order ∅] =
    Reconcile [].
Proof. by split; vm_compute. Qed.

(** C4 (as stated) fails on a call whose discriminant is Accept and whose
    Accept payload is nil: [Filters] neither succeeds nor raises the usage
    error, it ends in a nil dereference. *)
Lemma Filters_on_missing_payload :
  call_Type accept_without_payload = Some Call_ACCEPT ∧
  Filters refuse_5s accept_without_payload = Panics NilDereference ∧
  ¬ (∃ c', Filters refuse_5s accept_without_payload = Returns c').
Proof.
  split; [reflexivity|]. split; [reflexivity|]. by intros [c' [=]].
Qed.

Lemma Kill_agentID_witness :
  "agent-7" ≠ "" ∧
  call_Kill (Kill "task-1" "") =
    Some {| kill_TaskID := {| TaskID_Value := "task-1" |};
            kill_AgentID := None |} ∧
  call_Kill (Kill "task-1" "agent-7") =
    Some {| kill_TaskID := {| TaskID_Value := "task-1" |};
            kill_AgentID := Some {| AgentID_Value := "agent-7" |} |}.
Proof.
  split; [done|]. split.
  - apply (proj1 (proj2 (Kill_agentID "task-1" ""))).
    reflexivity.
  - apply (proj2 (proj2 (Kill_agentID "task-1" "agent-7"))).
    done.
Defined.

Lemma Filters_dispatch_witness :
  (call_Type (Accept stored_order []) = Some Call_ACCEPT ∧
   ∃ c' a', Filters refuse_5s (Accept stored_order []) = Returns c' ∧
            call_Accept c' = Some a' ∧
            accept_Filters a' = OptionalFilters refuse_5s) ∧
  (call_Type (Decline (Some [offer_A])) = Some Call_DECLINE ∧
   ∃ c' d', Filters refuse_5s (Decline (Some [offer_A])) = Returns c' ∧
            call_Decline c' = Some d' ∧
            decline_Filters d' = OptionalFilters refuse_5s ∧
            decline_OfferIDs d' = Some [offer_A]) ∧
  Filters refuse_5s (Subscribe true None) =
    Panics (PanicMsg "filters not supported for type SUBSCRIBE").
Proof.
  split; [|split].
  - split; [reflexivity|].
    destruct (proj1 (Filters_dispatch refuse_5s (Accept stored_order []))
                {| accept_OfferIDs := Some []; accept_Operations := None;
                   accept_Filters := None |} eq_refl eq_refl)
      as (c' & a' & Hret & Hacc & Hfil & _).
    exists c', a'. by repeat split.
  - split; [reflexivity|].
    destruct (proj1 (proj2 (Filters_dispatch refuse_5s (Decline (Some [offer_A]))))
                {| decline_OfferIDs := Some [offer_A]; decline_Filters := None |}
                eq_refl eq_refl)
      as (c' & d' & Hret & Hdec & Hfil & Hids & _).
    exists c', d'. by repeat split.
  - apply (proj2 (proj2 (Filters_dispatch refuse_5s (Subscribe true None)))
             Call_SUBSCRIBE);
      [reflexivity | discriminate | discriminate].
Defined.

Lemma Accept_offer_set_and_operation_order_witness :
  [(offer_A, [OpReserve cpus; OpLaunch one_task]);
   (offer_B, [OpCreate disk])] ≡ₚ
  [(offer_B, [OpCreate disk]);
   (offer_A, [OpReserve cpus; OpLaunch one_task])] ∧
  offer_set (Accept stored_order (attach
    [(offer_A, [OpReserve cpus; OpLaunch one_task]);
     (offer_B, [OpCreate disk])])) =
  offer_set (Accept reversed_order (attach
    [(offer_B, [OpCreate disk]);
     (offer_A, [OpReserve cpus; OpLaunch one_task])])) ∧
  operations_of (Accept stored_order (attach
    [(offer_A, [OpReserve cpus; OpLaunch one_task]);
     (offer_B, [OpCreate disk])])) =
  [OpReserve cpus (); OpLaunch one_task ();
   OpCreate disk ()].
Proof.
  split; [apply perm_swap|].
  pose proof (Accept_offer_set_and_operation_order
    [(offer_A, [OpReserve cpus; OpLaunch one_task]);
     (offer_B, [OpCreate disk])]
    [(offer_B, [OpCreate disk]);
     (offer_A, [OpReserve cpus; OpLaunch one_task])]
    stored_order reversed_order (perm_swap _ _ _)) as (Hset & Hops & _).
  split; [exact Hset | exact Hops].
Defined.

Lemma Accept_offerIDs_unique_witness :
  offer_A ∈ [(offer_A, [OpReserve None]);
             (offer_A, [OpLaunch None])].*1 ∧
  length (filter (λ x, x = offer_A)
    (offer_ids (Accept stored_order (attach
       [(offer_A, [OpReserve None]);
        (offer_A, [OpLaunch None])])))) = 1.
Proof.
  split; [left|].
  apply (Accept_offerIDs_unique stored_order []
           [(offer_A, [OpReserve None]); (offer_A, [OpLaunch None])]).
  left.
Defined.

Lemma ReconcileTasks_entries_witness :
  ({[ "t1" := "a1" ]} : gmap string string) ≠ ∅ ∧
  ∃ ts, reconcile_Tasks (ReconcileTasks stored_order
          {[ "t1" := "a1" ]} {| reconcile_Tasks := None |}) = Some ts ∧
        length ts = size ({[ "t1" := "a1" ]} : gmap string string).
Proof.
  assert (({[ "t1" := "a1" ]} : gmap string string) ≠ ∅) as Hne
    by apply insert_non_empty.
  split; [exact Hne|].
  destruct (proj1 (ReconcileTasks_entries stored_order
              {[ "t1" := "a1" ]} {| reconcile_Tasks := None |}) Hne)
    as (ts & Hts & Hlen & _).
  exists ts. by split.
Defined.

Lemma ReconcileTasks_replaces_witness :
  ({[ "t2" := "" ]} : gmap string string) ≠ ∅ ∧
  Reconcile
    [ReconcileTasks stored_order {[ "t1" := "a1" ]};
     ReconcileTasks stored_order {[ "t2" := "" ]}] =
  Reconcile [ReconcileTasks stored_order {[ "t2" := "" ]}].
Proof.
  assert (({[ "t2" := "" ]} : gmap string string) ≠ ∅) as Hne
    by apply insert_non_empty.
  split; [exact Hne|].
  apply (ReconcileTasks_replaces stored_order stored_order
           {[ "t1" := "a1" ]} {[ "t2" := "" ]} Hne).
Defined.

(** ** Further properties at the sample instance *)

Lemma Filters_frame_witness :
  Filters refuse_5s (Decline (Some [offer_A])) =
    Returns (set_call_Decline
               (Some {| decline_OfferIDs := Some [offer_A];
                        decline_Filters := OptionalFilters refuse_5s |})
               (Decline (Some [offer_A]))) ∧
  call_Type (set_call_Decline
               (Some {| decline_OfferIDs := Some [offer_A];
                        decline_Filters := OptionalFilters refuse_5s |})
               (Decline (Some [offer_A]))) =
    call_Type (Decline (Some [offer_A])).
Proof.
  split; [reflexivity|].
  destruct (Filters_frame refuse_5s (Decline (Some [offer_A])) _ eq_refl)
    as (Htype & _).
  exact Htype.
Defined.

Lemma constructors_leave_id_and_filters_witness :
  kind (Invoke_Kill "task-1" "agent-7") ≠ Call_SUBSCRIBE ∧
  call_FrameworkID (invoke (Invoke_Kill "task-1" "agent-7")) = None.
Proof.
  split; [discriminate|].
  apply (proj1 (constructors_leave_id_and_filters (Invoke_Kill "task-1" "agent-7"))).
  discriminate.
Defined.

Lemma Accept_nil_and_empty_witness :
  (∀ p, p ∈ [(offer_A, @nil OperationBuilder)] → p.2 = []) ∧
  ∃ a, call_Accept (Accept stored_order (attach [(offer_A, [])])) = Some a ∧
       accept_Operations a = None.
Proof.
  assert (∀ p, p ∈ [(offer_A, @nil OperationBuilder)] → p.2 = []) as Hall.
  { intros p Hp. apply list_elem_of_singleton in Hp. by subst. }
  split; [exact Hall|].
  destruct (Accept_nil_and_empty stored_order [(offer_A, [])])
    as (a & Ha & _ & _ & _ & Hnil & _).
  exists a. split; [exact Ha|]. apply Hnil, Hall.
Defined.

Lemma OfferWithOperations_only_adds_witness :
  offer_A ∈ offerIDs {| offerIDs := {[ offer_A ]}; operations := None |} ∧
  offerIDs (OfferWithOperations offer_A []
              {| offerIDs := {[ offer_A ]}; operations := None |}) =
    {[ offer_A ]}.
Proof.
  assert (offer_A ∈ offerIDs {| offerIDs := {[ offer_A ]}; operations := None |})
    as Hin by (by apply elem_of_singleton).
  split; [exact Hin|].
  destruct (OfferWithOperations_only_adds offer_A []
              {| offerIDs := {[ offer_A ]}; operations := None |})
    as (_ & _ & _ & _ & _ & Hsame).
  exact (proj1 (Hsame Hin)).
Defined.

Lemma builder_of_inj_witness :
  builder_of (Build_Reserve cpus) () = builder_of (Build_Reserve cpus) () ∧
  Build_Reserve cpus = Build_Reserve cpus.
Proof.
  split; [reflexivity|].
  apply (builder_of_inj (Build_Reserve cpus) (Build_Reserve cpus)). reflexivity.
Defined.

Lemma ReconcileTasks_lookup_witness :
  ({[ "t1" := "a1" ]} : gmap string string) !! "t9" = None ∧
  ∀ e, e ∈ elems (reconcile_Tasks (ReconcileTasks stored_order {[ "t1" := "a1" ]}
                                       {| reconcile_Tasks := None |})) →
       TaskID_Value (task_TaskID e) ≠ "t9".
Proof.
  assert (({[ "t1" := "a1" ]} : gmap string string) !! "t9" = None) as Hnone
    by reflexivity.
  split; [exact Hnone|].
  apply (proj2 (ReconcileTasks_lookup stored_order {[ "t1" := "a1" ]}
                  {| reconcile_Tasks := None |} "t9" None)), Hnone.
Defined.

Lemma optional_agent_never_empty_witness :
  optionalAgentID "agent-7" = Some {| AgentID_Value := "agent-7" |} ∧
  "agent-7" ≠ "".
Proof.
  split; [reflexivity|].
  apply (proj1 (optional_agent_never_empty stored_order ∅
                  {| reconcile_Tasks := None |} "task-1" "agent-7")
           {| AgentID_Value := "agent-7" |}).
  reflexivity.
Defined.

Lemma constructors_injective_witness :
  Kill "task-1" "agent-7" = Kill "task-1" "agent-7" ∧
  "task-1" = "task-1" ∧ "agent-7" = "agent-7".
Proof.
  split; [reflexivity|].
  apply (proj1 (proj2 constructors_injective) "task-1" "agent-7" "task-1" "agent-7").
  reflexivity.
Defined.

Lemma errInvalidCall_message_witness :
  errInvalidCall "no type" = errInvalidCall "no type" ∧ "no type" = "no type".
Proof.
  split; [reflexivity|].
  apply (errInvalidCall_message "no type" "no type"). reflexivity.
Defined.
